(** * StyleScope camera screen: response parser and capture session

    A shallow embedding of the room-analysis screen of the StyleScope
    template (the [CameraScreen] React component): the two pure text
    functions [formatAnalysisText] and [renderFormattedContent], which
    reorganise the model's answer into headed sections, and the event
    handlers [takePicture], [pickImage], [analyzeRoom] and [resetAnalysis]
    that drive the capture session.

    JavaScript strings are sequences of UTF-16 code units; they are modelled
    as lists of [N].  Regular expressions of the source are embedded as the
    deterministic matchers they denote (each is justified where it is
    defined). *)

From Stdlib Require Import Ascii String.
From Stdlib Require Import List NArith Bool Arith Lia.
From Equations Require Import Equations.
Import ListNotations.

(** ** JavaScript strings *)

Module Js.

Definition codeunit := N.
Definition jsstring := list codeunit.

(** ASCII literals of the source, as code units. *)
Definition lit (s : string) : jsstring :=
  map N_of_ascii (list_ascii_of_string s).

Definition LF : codeunit := 10%N.
Definition SPACE : codeunit := 32%N.
Definition STAR : codeunit := 42%N.
Definition DOT : codeunit := 46%N.
Definition COLON : codeunit := 58%N.
(** U+2022, the bullet of the replacement string [bullet + space]. *)
Definition BULLET : codeunit := 8226%N.

(** [\d] without the [u] flag: the ASCII digits. *)
Definition is_digit (c : codeunit) : bool :=
  ((48 <=? c) && (c <=? 57))%N.

(** [\s], and the characters [String.prototype.trim] strips: ECMAScript
    WhiteSpace and LineTerminator. *)
Definition is_space (c : codeunit) : bool :=
  (((9 <=? c) && (c <=? 13))
   || (c =? 32) || (c =? 160) || (c =? 5760)
   || ((8192 <=? c) && (c <=? 8202))
   || (c =? 8232) || (c =? 8233) || (c =? 8239) || (c =? 8287)
   || (c =? 12288) || (c =? 65279))%N.

Definition not_colon (c : codeunit) : bool := negb (c =? COLON)%N.

Fixpoint drop_while (p : codeunit -> bool) (s : jsstring) : jsstring :=
  match s with
  | [] => []
  | c :: s' => if p c then drop_while p s' else s
  end.

(** The longest prefix satisfying [p], and what follows it. *)
Fixpoint span (p : codeunit -> bool) (s : jsstring) : jsstring * jsstring :=
  match s with
  | [] => ([], [])
  | c :: s' =>
      if p c then let (a, b) := span p s' in (c :: a, b) else ([], s)
  end.

Definition trimStart (s : jsstring) : jsstring := drop_while is_space s.
Definition trimEnd (s : jsstring) : jsstring := rev (drop_while is_space (rev s)).
(** [s.trim()] *)
Definition trim (s : jsstring) : jsstring := trimEnd (trimStart s).

(** Truthiness of a string: [Boolean(s)], [if (s)], [s && ...]. *)
Definition truthy (s : jsstring) : bool :=
  match s with [] => false | _ :: _ => true end.

(** [s.startsWith(c)] for a one-unit search string. *)
Definition startsWith (c : codeunit) (s : jsstring) : bool :=
  match s with
  | [] => false
  | x :: _ => (x =? c)%N
  end.

(** [s.split('\n')]: the pieces between line feeds; the empty string
    splits into one empty piece. *)
Fixpoint split_lines (s : jsstring) : list jsstring :=
  match s with
  | [] => [[]]
  | c :: s' =>
      if (c =? LF)%N then [] :: split_lines s'
      else match split_lines s' with
           | l :: ls => (c :: l) :: ls
           | [] => [[c]]
           end
  end.

(** A value read from an array: a string, or [undefined] ([None]) when the
    index is out of range. *)
Definition value := option jsstring.

Definition truthy_value (v : value) : bool :=
  match v with Some s => truthy s | None => false end.

(** [v || d] *)
Definition or_default (v : value) (d : jsstring) : jsstring :=
  match v with
  | Some s => if truthy s then s else d
  | None => d
  end.

Inductive JsError := TypeError.

(** How an evaluation ends: with a value, or with a thrown error. *)
Inductive completion (A : Type) : Type :=
| Normal (a : A)
| Throw (e : JsError).
Arguments Normal {A} a.
Arguments Throw {A} e.

Definition bind {A B} (c : completion A) (k : A -> completion B) : completion B :=
  match c with
  | Normal a => k a
  | Throw e => Throw e
  end.

(** A method call [v.m(...)]: a [TypeError] when the receiver is
    [undefined]. *)
Definition call {A} (v : value) (m : jsstring -> A) : completion A :=
  match v with
  | Some s => Normal (m s)
  | None => Throw TypeError
  end.

(** A value together with the equation that names it, for definitions
    whose termination depends on the outcome of a test. *)
Definition inspect {A} (a : A) : {b : A | a = b} := exist _ a eq_refl.

End Js.

Import Js.

Notation "x <- c ;; k" := (bind c (fun x => k))
  (at level 61, c at next level, right associativity).

(** ** The response parser *)

Module Parser.

(** One match of [/\*\*(\d+\.\s*[^:]+:)\*\*/] anchored at the start of [s]:
    the captured group and the text after the match.

    The backtracking matcher has a single way to succeed.  [\d+] must take
    the whole run of digits, because a period has to follow it.  [\s*] and
    [[^:]+] together take the characters up to the first colon, because a
    colon has to follow them and neither can cross one; that run must not
    be empty, since [[^:]+] needs one character (a white-space character
    will do once [\s*] gives it back).  The two asterisks must follow that
    colon. *)
Definition heading_marker (s : jsstring) : option (jsstring * jsstring) :=
  match s with
  | a :: b :: s1 =>
      if ((a =? STAR) && (b =? STAR))%N then
        let (digits, s2) := span is_digit s1 in
        match digits, s2 with
        | _ :: _, d :: s3 =>
            if (d =? DOT)%N then
              let (label, s4) := span not_colon s3 in
              match label, s4 with
              | _ :: _, c :: x :: y :: s5 =>
                  if ((c =? COLON) && (x =? STAR) && (y =? STAR))%N
                  then Some (digits ++ [DOT] ++ label ++ [COLON], s5)
                  else None
              | _, _ => None
              end
            else None
        | _, _ => None
        end
      else None
  | _ => None
  end.

Lemma span_length p s : length (snd (span p s)) <= length s.
Proof.
  induction s as [|c s IH]; simpl; [lia|].
  destruct (p c); [|simpl; lia].
  destruct (span p s); simpl in *; lia.
Qed.

Lemma heading_marker_shorter s cap rest :
  heading_marker s = Some (cap, rest) -> length rest < length s.
Proof.
  unfold heading_marker.
  destruct s as [|a [|b s1]]; try discriminate.
  destruct ((a =? STAR) && (b =? STAR))%N; try discriminate.
  pose proof (span_length is_digit s1) as H1.
  destruct (span is_digit s1) as [digits s2]; simpl in H1.
  destruct digits as [|d0 digits]; try discriminate.
  destruct s2 as [|d s3]; try discriminate.
  destruct (d =? DOT)%N; try discriminate.
  pose proof (span_length not_colon s3) as H2.
  destruct (span not_colon s3) as [label s4]; simpl in H2.
  destruct label as [|l0 label]; try discriminate.
  destruct s4 as [|c [|x [|y s5]]]; try discriminate.
  destruct ((c =? COLON) && (x =? STAR) && (y =? STAR))%N; try discriminate.
  intros H; inversion H; subst. simpl in *. lia.
Qed.

(** [text.split(/\*\*(\d+\.\s*[^:]+:)\*\*/)]: the text is scanned from the
    left; at the first position where the pattern matches, the piece
    collected so far and the captured group are emitted and the scan goes
    on after the match (a match is never empty); at the end the last piece
    is emitted.  [piece] holds the current piece, reversed. *)
Equations? split_markers (piece : jsstring) (s : jsstring) : list jsstring
  by wf (length s) lt :=
split_markers piece [] := [rev piece];
split_markers piece (c :: s') with inspect (heading_marker (c :: s')) => {
  | exist _ (Some (cap, rest)) _ := rev piece :: cap :: split_markers [] rest;
  | exist _ None _ := split_markers (c :: piece) s' }.
Proof.
  apply (heading_marker_shorter (c :: s') cap rest e).
Qed.

(** [heading.replace(/^\d+\.\s*/, '')]: the pattern is anchored and not
    global, so it removes at most one prefix: a run of digits (all of
    them, as a period must follow), the period, and all white space after
    it.  A string without such a prefix is returned as it is. *)
Definition strip_ordinal (h : jsstring) : jsstring :=
  let (digits, r) := span is_digit h in
  match digits, r with
  | _ :: _, d :: r' => if (d =? DOT)%N then drop_while is_space r' else h
  | _, _ => h
  end.

(** [line.replace(/^\*\s*/, bullet + space)]: a leading asterisk and the
    white space after it are replaced by the bullet and one space; a line
    that does not start with an asterisk is returned as it is. *)
Definition replace_bullet (line : jsstring) : jsstring :=
  match line with
  | c :: r =>
      if (c =? STAR)%N then BULLET :: SPACE :: drop_while is_space r else line
  | [] => line
  end.

Record FormattedSection := { heading : jsstring; content : jsstring }.

(** The body of the [for] loop of [formatAnalysisText] at index [i]. *)
Definition pair_at (sections : list jsstring) (i : nat)
    (formattedSections : list FormattedSection)
  : completion (list FormattedSection) :=
  let heading := nth_error sections i in
  let content := or_default (nth_error sections (i + 1)) [] in
  if truthy_value heading && truthy content then
    h <- call heading strip_ordinal ;;
    Normal (formattedSections ++ [{| heading := h; content := trim content |}])
  else Normal formattedSections.

(** [for (let i = 0; i < sections.length; i += 2) { ... }] *)
Equations? pair_loop (sections : list jsstring) (i : nat)
    (formattedSections : list FormattedSection)
  : completion (list FormattedSection) by wf (length sections - i) lt :=
pair_loop sections i formattedSections with lt_dec i (length sections) => {
  | left _ with pair_at sections i formattedSections => {
      | Normal formattedSections' := pair_loop sections (i + 2) formattedSections';
      | Throw e := Throw e };
  | right _ := Normal formattedSections }.
Proof. lia. Qed.

Definition formatAnalysisText (text : jsstring)
  : completion (list FormattedSection) :=
  let sections := filter truthy (split_markers [] text) in
  pair_loop sections 0 [].

(** The same pairing written by recursion on the array, two elements at a
    time; [pair_loop_pairs] shows that the loop computes it. *)
Fixpoint pairs (sections : list jsstring)
    (formattedSections : list FormattedSection) : list FormattedSection :=
  match sections with
  | heading :: content :: rest =>
      if truthy heading && truthy content
      then pairs rest (formattedSections
                         ++ [{| heading := strip_ordinal heading;
                                content := trim content |}])
      else pairs rest formattedSections
  | _ => formattedSections
  end.

(** The two styles [renderFormattedContent] gives a line:
    [styles.subheading] (a sub-point) and [styles.contentText] (a plain
    line). *)
Inductive TextStyle := subheading | contentText.

Record TextElement :=
  { key : nat; style : TextStyle; children : jsstring }.

Definition renderLine (line : jsstring) (index : nat) : TextElement :=
  let isSubheading := startsWith STAR (trim line) in
  if isSubheading
  then {| key := index; style := subheading; children := replace_bullet line |}
  else {| key := index; style := contentText; children := line |}.

(** [lines.map((line, index) => ...)] *)
Fixpoint map_index {A B} (f : A -> nat -> B) (index : nat) (l : list A) : list B :=
  match l with
  | [] => []
  | x :: l' => f x index :: map_index f (S index) l'
  end.

Definition renderFormattedContent (content : jsstring) : list TextElement :=
  let lines := filter (fun line => truthy (trim line)) (split_lines content) in
  map_index renderLine 0 lines.

(** What the result panel shows for one section: its heading and its
    rendered lines. *)
Record SectionView :=
  { sectionHeading : jsstring; sectionContent : list TextElement }.

(** The body of the result panel,
    [analysis ? formatAnalysisText(analysis).map(section => ...) : null]:
    the raw answer turned into headed sections of classified lines.  This
    is the specification's [parse]. *)
Definition parse (analysis : jsstring) : completion (list SectionView) :=
  if truthy analysis then
    sections <- formatAnalysisText analysis ;;
    Normal (map (fun section =>
                   {| sectionHeading := heading section;
                      sectionContent := renderFormattedContent (content section) |})
                sections)
  else Normal [].

(** The line kinds of the specification. *)
Definition PLAIN : TextStyle := contentText.
Definition SUBPOINT : TextStyle := subheading.

(** A rendered line without its React key, and a section as a heading with
    its lines. *)
Definition Line : Type := TextStyle * jsstring.

Definition body (v : SectionView) : list Line :=
  map (fun e => (style e, children e)) (sectionContent v).

Definition outline (vs : list SectionView) : list (jsstring * list Line) :=
  map (fun v => (sectionHeading v, body v)) vs.

End Parser.

Import Parser.

(** ** Texts built from heading markers

    The vocabulary in which the properties of the parser are stated: a text
    written as a sequence of heading markers, each followed by its content
    block. *)

Module Document.

(** A heading marker [**ordinal.label:**] and the block that follows it.
    [label] is everything between the period and the colon, the optional
    white space included. *)
Record HeadedBlock :=
  { ordinal : jsstring; label : jsstring; block : jsstring }.

Definition marker_group (b : HeadedBlock) : jsstring :=
  ordinal b ++ [DOT] ++ label b ++ [COLON].

Definition marker (b : HeadedBlock) : jsstring :=
  [STAR; STAR] ++ marker_group b ++ [STAR; STAR].

Fixpoint document (bs : list HeadedBlock) : jsstring :=
  match bs with
  | [] => []
  | b :: bs' => marker b ++ block b ++ document bs'
  end.

(** A numeral, a period, a label without colon, a colon. *)
Definition well_formed_marker (b : HeadedBlock) : bool :=
  truthy (ordinal b) && forallb is_digit (ordinal b)
  && truthy (label b) && forallb not_colon (label b).

(** The pattern matches at some position of [s]. *)
Fixpoint has_marker (s : jsstring) : bool :=
  match s with
  | [] => false
  | _ :: s' =>
      match heading_marker s with
      | Some _ => true
      | None => has_marker s'
      end
  end.

(** The pattern matches at no position inside [c] when [tail] follows. *)
Fixpoint marker_free (c tail : jsstring) : bool :=
  match c with
  | [] => true
  | _ :: c' =>
      match heading_marker (c ++ tail) with
      | Some _ => false
      | None => marker_free c' tail
      end
  end.

(** The markers of the text are exactly those of [bs]: each is well
    formed, and no other match starts inside a block. *)
Fixpoint well_formed (bs : list HeadedBlock) : bool :=
  match bs with
  | [] => true
  | b :: bs' =>
      well_formed_marker b && marker_free (block b) (document bs')
      && well_formed bs'
  end.

(** The section the result panel shows for a block: the label without
    its leading white space, followed by the colon, over the lines of the
    trimmed block. *)
Definition shown (b : HeadedBlock) : SectionView :=
  {| sectionHeading := drop_while is_space (label b) ++ [COLON];
     sectionContent := renderFormattedContent (trim (block b)) |}.

(** A line that is blank after trimming. *)
Definition blank (line : jsstring) : bool := forallb is_space line.

(** The first character of the line that is not white space is an
    asterisk. *)
Definition bullet_marked (line : jsstring) : bool :=
  startsWith STAR (drop_while is_space line).

(** How a non-blank line relates to the element rendered for it. *)
Definition line_rendered (line : jsstring) (e : TextElement) : Prop :=
  (bullet_marked line = true ->
     style e = SUBPOINT
     /\ (startsWith STAR line = true ->
         children e = BULLET :: SPACE :: drop_while is_space (tl line)))
  /\ (bullet_marked line = false -> style e = PLAIN /\ children e = line).

(** The answer of end-to-end scenario A, and the same text as blocks. *)
Definition scenarioA : jsstring :=
  lit "**1. Design Style:** Modern" ++ [LF] ++ lit "* Clean lines" ++ [LF]
  ++ lit "**2. Lighting:** Bright".

Definition scenarioA_blocks : list HeadedBlock :=
  [ {| ordinal := lit "1"; label := lit " Design Style";
       block := lit " Modern" ++ [LF] ++ lit "* Clean lines" ++ [LF] |};
    {| ordinal := lit "2"; label := lit " Lighting"; block := lit " Bright" |} ].

End Document.

Import Document.

(** ** The capture session *)

Module Session.

(** The repository has the screen twice: one file shows the result in a
    modal panel ([showModal]), the other shows the raw answer in line and
    has no [showModal] state. *)
Inductive Layout := ModalLayout | InlineLayout.

(** What the camera and the picker hand over: [uri] and [base64]. *)
Record Photo := { uri : jsstring; base64 : jsstring }.

(** [ImagePicker.launchImageLibraryAsync]'s result; [assets] is [null]
    ([None]) when the user cancelled. *)
Record ImagePickerResult :=
  { canceled : bool; assets : option (list Photo) }.

(** How an awaited promise settles. *)
Inductive settled (A : Type) : Type :=
| Resolved (a : A)
| Rejected.
Arguments Resolved {A} a.
Arguments Rejected {A}.

Record AlertCall := { title : string; message : string }.

(** The component's state variables ([facing] and the camera permission
    play no part in the analysis cycle and are left out; permission is
    taken as granted). *)
Record State :=
  { capturedImage : option jsstring;
    analysis : jsstring;
    loading : bool;
    showModal : bool }.

(** The state together with the effects performed so far and the
    operations still pending. *)
Record World :=
  { state : State;
    alerts : list AlertCall;     (* [Alert.alert] calls, oldest first *)
    requests : list jsstring;    (* [generateContent] calls: the image sent *)
    capturing : nat;             (* [takePictureAsync] calls not yet settled *)
    picking : nat;               (* [launchImageLibraryAsync] calls not yet settled *)
    inFlight : nat }.            (* [generateContent] calls not yet settled *)

Definition with_state (f : State -> State) (w : World) : World :=
  {| state := f (state w); alerts := alerts w; requests := requests w;
     capturing := capturing w; picking := picking w; inFlight := inFlight w |}.

Definition setCapturedImage (v : option jsstring) : World -> World :=
  with_state (fun s => {| capturedImage := v; analysis := analysis s;
                          loading := loading s; showModal := showModal s |}).

Definition setAnalysis (v : jsstring) : World -> World :=
  with_state (fun s => {| capturedImage := capturedImage s; analysis := v;
                          loading := loading s; showModal := showModal s |}).

Definition setLoading (v : bool) : World -> World :=
  with_state (fun s => {| capturedImage := capturedImage s; analysis := analysis s;
                          loading := v; showModal := showModal s |}).

Definition setShowModal (v : bool) : World -> World :=
  with_state (fun s => {| capturedImage := capturedImage s; analysis := analysis s;
                          loading := loading s; showModal := v |}).

(** [Alert.alert(title, message)] *)
Definition alert (t m : string) (w : World) : World :=
  {| state := state w; alerts := alerts w ++ [{| title := t; message := m |}];
     requests := requests w; capturing := capturing w; picking := picking w;
     inFlight := inFlight w |}.

(** [model.generateContent([prompt, imagePart])] is called: one more
    request, now in flight. *)
Definition generateContent (base64Image : jsstring) (w : World) : World :=
  {| state := state w; alerts := alerts w;
     requests := requests w ++ [base64Image];
     capturing := capturing w; picking := picking w;
     inFlight := S (inFlight w) |}.

Definition apiKeyAlert : AlertCall :=
  {| title := "Error";
     message := "Please add your Gemini API key to environment variables" |}.

Inductive View := AnalysisView | MainView.

Inductive Button :=
| CaptureButton            (* the round capture button, [takePicture] *)
| SelectPhotoButton        (* Select Photo, [pickImage] *)
| TakeAnotherButton        (* Take Another Photo of the analysis view *)
| ModalCloseButton         (* the cross of the result panel *)
| ModalTakeAnotherButton.  (* Take Another Photo of the result panel *)

Definition Button_eqb (a b : Button) : bool :=
  match a, b with
  | CaptureButton, CaptureButton
  | SelectPhotoButton, SelectPhotoButton
  | TakeAnotherButton, TakeAnotherButton
  | ModalCloseButton, ModalCloseButton
  | ModalTakeAnotherButton, ModalTakeAnotherButton => true
  | _, _ => false
  end.

Inductive Event :=
| Press (b : Button)
| CameraSettled (r : settled (option Photo))
| PickerSettled (r : settled ImagePickerResult)
| ModelSettled (r : settled jsstring).

Section Screen.

Variable layout : Layout.
(** [process.env.EXPO_PUBLIC_GEMINI_API_KEY]: a string, or [undefined]. *)
Variable apiKey : value.

(** Which of the two returns of the component renders:
    [if (capturedImage && !showModal)] in the modal layout,
    [if (capturedImage)] in the other. *)
Definition view (s : State) : View :=
  match layout with
  | ModalLayout =>
      if truthy_value (capturedImage s) && negb (showModal s)
      then AnalysisView else MainView
  | InlineLayout =>
      if truthy_value (capturedImage s) then AnalysisView else MainView
  end.

(** The buttons of the rendered view.  The result panel exists in the
    modal layout only and is part of the main view. *)
Definition rendered (s : State) : list Button :=
  match view s with
  | AnalysisView => [TakeAnotherButton]
  | MainView =>
      [CaptureButton; SelectPhotoButton]
      ++ match layout with
         | ModalLayout =>
             if showModal s then [ModalCloseButton; ModalTakeAnotherButton]
             else []
         | InlineLayout => []
         end
  end.

(** [cameraRef.current]: set while the [CameraView] of the main view is
    mounted. *)
Definition cameraRef (s : State) : bool :=
  match view s with
  | MainView => true
  | AnalysisView => false
  end.

(** [analyzeRoom], up to its [await]. *)
Definition analyzeRoom (base64Image : jsstring) (w : World) : World :=
  if negb (truthy_value apiKey) then
    alert (title apiKeyAlert) (message apiKeyAlert) w
  else
    generateContent base64Image (setLoading true w).

(** [analyzeRoom], from the point where the request settles: the [try]
    block ends, or the [catch] block runs; then [finally]. *)
Definition analyzeRoom_settled (r : settled jsstring) (w : World) : World :=
  let w' :=
    match r with
    | Resolved text =>
        let w1 := setAnalysis text w in
        match layout with
        | ModalLayout => setShowModal true w1
        | InlineLayout => w1
        end
    | Rejected => alert "Error" "Failed to analyze room. Please try again." w
    end in
  setLoading false w'.

(** [takePicture], up to its [await]. *)
Definition takePicture (w : World) : World :=
  if cameraRef (state w) then
    {| state := state w; alerts := alerts w; requests := requests w;
       capturing := S (capturing w); picking := picking w;
       inFlight := inFlight w |}
  else w.

(** [takePicture], from the point where the camera settles. *)
Definition takePicture_settled (r : settled (option Photo)) (w : World) : World :=
  match r with
  | Resolved (Some photo) =>
      analyzeRoom (base64 photo) (setCapturedImage (Some (uri photo)) w)
  | Resolved None => w
  | Rejected => alert "Error" "Failed to take picture" w
  end.

(** [pickImage], up to its [await]. *)
Definition pickImage (w : World) : World :=
  {| state := state w; alerts := alerts w; requests := requests w;
     capturing := capturing w; picking := S (picking w);
     inFlight := inFlight w |}.

(** [pickImage], from the point where the picker settles.  The test is
    [!result.canceled && result.assets[0]]: indexing [null] throws and is
    caught; an empty array gives [undefined]. *)
Definition pickImage_settled (r : settled ImagePickerResult) (w : World) : World :=
  match r with
  | Resolved result =>
      if canceled result then w
      else match assets result with
           | None => alert "Error" "Failed to pick image" w
           | Some [] => w
           | Some (asset :: _) =>
               analyzeRoom (base64 asset)
                 (setCapturedImage (Some (uri asset)) w)
           end
  | Rejected => alert "Error" "Failed to pick image" w
  end.

Definition resetAnalysis (w : World) : World :=
  let w1 := setAnalysis [] (setCapturedImage None w) in
  match layout with
  | ModalLayout => setShowModal false w1
  | InlineLayout => w1
  end.

Definition onPress (b : Button) (w : World) : World :=
  match b with
  | CaptureButton => takePicture w
  | SelectPhotoButton => pickImage w
  | TakeAnotherButton => resetAnalysis w
  | ModalCloseButton => setShowModal false w
  | ModalTakeAnotherButton => resetAnalysis (setShowModal false w)
  end.

(** One event of the screen: a press of a rendered button, or the
    settling of a pending operation. *)
Definition step (w : World) (ev : Event) : World :=
  match ev with
  | Press b =>
      if existsb (Button_eqb b) (rendered (state w)) then onPress b w else w
  | CameraSettled r =>
      match capturing w with
      | S n =>
          takePicture_settled r
            {| state := state w; alerts := alerts w; requests := requests w;
               capturing := n; picking := picking w; inFlight := inFlight w |}
      | O => w
      end
  | PickerSettled r =>
      match picking w with
      | S n =>
          pickImage_settled r
            {| state := state w; alerts := alerts w; requests := requests w;
               capturing := capturing w; picking := n; inFlight := inFlight w |}
      | O => w
      end
  | ModelSettled r =>
      match inFlight w with
      | S n =>
          analyzeRoom_settled r
            {| state := state w; alerts := alerts w; requests := requests w;
               capturing := capturing w; picking := picking w; inFlight := n |}
      | O => w
      end
  end.

Definition run (w : World) (evs : list Event) : World := fold_left step evs w.

End Screen.

(** The screen as it starts. *)
Definition initial : World :=
  {| state := {| capturedImage := None; analysis := []; loading := false;
                 showModal := false |};
     alerts := []; requests := []; capturing := 0; picking := 0; inFlight := 0 |}.

(** Idle: no image held, no result, nothing loading. *)
Definition idle (s : State) : Prop :=
  capturedImage s = None /\ analysis s = [] /\ loading s = false
  /\ showModal s = false.

(** Two photographs and a configured key, for the scenarios. *)
Definition photo1 : Photo :=
  {| uri := lit "file:///cache/room1.jpg"; base64 := lit "Zmlyc3Q=" |}.

Definition photo2 : Photo :=
  {| uri := lit "file:///cache/room2.jpg"; base64 := lit "c2Vjb25k" |}.

Definition someKey : value := Some (lit "AIza-key").

(** The picker's result when the user dismisses it. *)
Definition cancelled : ImagePickerResult :=
  {| canceled := true; assets := None |}.

End Session.

Import Session.

(** ** Pieces, lines and what the screen displays *)

Module Pieces.

(** The text a split at the heading pattern came from: pieces alternate
    with captured groups, and each group goes back between its two pairs
    of asterisks. *)
Fixpoint rejoin (pieces : list jsstring) : jsstring :=
  match pieces with
  | [] => []
  | piece :: more =>
      match more with
      | [] => piece
      | group :: rest =>
          piece ++ [STAR; STAR] ++ group ++ [STAR; STAR] ++ rejoin rest
      end
  end.

(** [lines.join('\n')] *)
Fixpoint join_lines (lines : list jsstring) : jsstring :=
  match lines with
  | [] => []
  | line :: more =>
      match more with
      | [] => line
      | _ :: _ => line ++ [LF] ++ join_lines more
      end
  end.

Definition has_line_feed (s : jsstring) : bool := existsb (N.eqb LF) s.


End Pieces.

Import Pieces.

Module Display.

(** What the analysis view shows under the captured image. *)
Inductive Panel :=
| Spinner                        (* the activity indicator, Analyzing room... *)
| ResultText (text : jsstring).  (* the raw answer under its title *)

(** The conditional of the analysis view.  In the modal layout it is
    [loading ? spinner : spinner]; in the other
    [loading ? spinner : analysis ? result : spinner]. *)
Definition analysisPanel (layout : Layout) (s : State) : Panel :=
  match layout with
  | ModalLayout => if loading s then Spinner else Spinner
  | InlineLayout =>
      if loading s then Spinner
      else if truthy (analysis s) then ResultText (analysis s)
      else Spinner
  end.

(** The result panel of the modal layout: [visible={showModal}], its body
    the parsed answer.  [None] when no panel is visible. *)
Definition resultPanel (layout : Layout) (s : State)
  : option (completion (list SectionView)) :=
  match layout with
  | ModalLayout => if showModal s then Some (parse (analysis s)) else None
  | InlineLayout => None
  end.

Definition analyzeAlert : AlertCall :=
  {| title := "Error"; message := "Failed to analyze room. Please try again." |}.

Definition takePictureAlert : AlertCall :=
  {| title := "Error"; message := "Failed to take picture" |}.

Definition pickImageAlert : AlertCall :=
  {| title := "Error"; message := "Failed to pick image" |}.

End Display.

Import Display.

(** * Properties *)

(** ** Strings *)

Lemma span_stop p a c s :
  forallb p a = true -> p c = false -> span p (a ++ c :: s) = (a, c :: s).
Proof.
  intros Ha Hc. induction a as [|x a IH]; simpl in *.
  - now rewrite Hc.
  - apply andb_prop in Ha as [Hx Ha]. rewrite Hx, (IH Ha). reflexivity.
Qed.

Lemma drop_while_none p s : forallb p s = true -> drop_while p s = [].
Proof.
  induction s as [|c s IH]; simpl; [reflexivity|].
  intros H. apply andb_prop in H as [Hc Hs]. now rewrite Hc, IH.
Qed.

Lemma drop_while_some p s :
  forallb p s = false ->
  exists c r, drop_while p s = c :: r /\ p c = false.
Proof.
  induction s as [|c s IH]; simpl; [discriminate|].
  destruct (p c) eqn:Hc; simpl.
  - exact IH.
  - intros _. exists c, s. now split.
Qed.

Lemma drop_while_snoc p s c :
  p c = false -> drop_while p (s ++ [c]) = drop_while p s ++ [c].
Proof.
  intros Hc. induction s as [|x s IH]; simpl.
  - now rewrite Hc.
  - destruct (p x); [exact IH | reflexivity].
Qed.

(** Trimming the end keeps a first character that is not white space. *)
Lemma trimEnd_cons c r :
  is_space c = false -> exists r', trimEnd (c :: r) = c :: r'.
Proof.
  intros Hc. unfold trimEnd. simpl rev.
  rewrite (drop_while_snoc _ _ _ Hc), rev_app_distr. simpl. eauto.
Qed.

Lemma trim_blank line : blank line = true -> trim line = [].
Proof.
  intros H. unfold trim, trimStart. now rewrite (drop_while_none _ _ H).
Qed.

Lemma trim_visible line :
  blank line = false ->
  exists c r r', drop_while is_space line = c :: r /\ trim line = c :: r'.
Proof.
  intros H. destruct (drop_while_some _ _ H) as (c & r & Hd & Hc).
  destruct (trimEnd_cons c r Hc) as [r' Hr'].
  exists c, r, r'. split; [exact Hd|].
  unfold trim, trimStart. now rewrite Hd.
Qed.

Lemma truthy_trim line : truthy (trim line) = negb (blank line).
Proof.
  destruct (blank line) eqn:H.
  - now rewrite (trim_blank _ H).
  - destruct (trim_visible _ H) as (c & r & r' & _ & Ht). now rewrite Ht.
Qed.

Lemma startsWith_trim line :
  startsWith STAR (trim line) = bullet_marked line.
Proof.
  unfold bullet_marked. destruct (blank line) eqn:H.
  - rewrite (trim_blank _ H). unfold blank in H.
    now rewrite (drop_while_none _ _ H).
  - destruct (trim_visible _ H) as (c & r & r' & Hd & Ht).
    now rewrite Hd, Ht.
Qed.

(** ** Splitting at the heading markers *)

Arguments heading_marker : simpl never.

Lemma split_markers_match piece s cap rest :
  heading_marker s = Some (cap, rest) ->
  split_markers piece s = rev piece :: cap :: split_markers [] rest.
Proof.
  intros H. destruct s as [|c s']; [discriminate|].
  simp split_markers.
  generalize (inspect (heading_marker (c :: s'))). intros [o Ho].
  destruct o as [[cap' rest']|]; simp split_markers; congruence.
Qed.

Lemma split_markers_skip piece c s' :
  heading_marker (c :: s') = None ->
  split_markers piece (c :: s') = split_markers (c :: piece) s'.
Proof.
  intros H. simp split_markers.
  generalize (inspect (heading_marker (c :: s'))). intros [o Ho].
  destruct o as [[cap' rest']|]; simp split_markers; congruence.
Qed.

(** A well-formed marker is matched whole, whatever follows it. *)
Lemma heading_marker_marker b tail :
  well_formed_marker b = true ->
  heading_marker (marker b ++ tail) = Some (marker_group b, tail).
Proof.
  unfold well_formed_marker, marker, marker_group.
  destruct b as [digits lbl blk]; simpl.
  intros H. repeat (apply andb_prop in H as [H ?]).
  unfold heading_marker. repeat rewrite <- app_assoc. simpl.
  rewrite (span_stop is_digit digits DOT _) by (assumption || reflexivity).
  destruct digits as [|d0 digits]; [discriminate|].
  simpl. repeat rewrite <- app_assoc. simpl.
  rewrite (span_stop not_colon lbl COLON _) by (assumption || reflexivity).
  destruct lbl as [|l0 lbl]; [discriminate|].
  reflexivity.
Qed.

(** Where the pattern matches nowhere, the scan only extends the piece. *)
Lemma split_markers_free piece c tail :
  marker_free c tail = true ->
  split_markers piece (c ++ tail) = split_markers (rev c ++ piece) tail.
Proof.
  revert piece. induction c as [|x c IH]; intros piece H; simpl in *.
  - reflexivity.
  - destruct (heading_marker (x :: c ++ tail)) eqn:Hm; [discriminate|].
    rewrite (split_markers_skip _ _ _ Hm), (IH _ H).
    now rewrite <- app_assoc.
Qed.

Lemma has_marker_free s : has_marker s = false -> marker_free s [] = true.
Proof.
  induction s as [|c s IH]; simpl; [reflexivity|].
  rewrite app_nil_r.
  destruct (heading_marker (c :: s)); [discriminate | exact IH].
Qed.

(** A text of well-formed blocks splits into the empty text before the
    first marker, then each captured group followed by its block. *)
Lemma split_markers_document piece bs :
  well_formed bs = true ->
  split_markers piece (document bs)
  = rev piece :: flat_map (fun b => [marker_group b; block b]) bs.
Proof.
  revert piece. induction bs as [|b bs IH]; intros piece H;
    cbn [document well_formed flat_map] in *.
  - now simp split_markers.
  - apply andb_prop in H as [H Hbs]. apply andb_prop in H as [Hb Hfree].
    rewrite (split_markers_match piece _ _ _ (heading_marker_marker b _ Hb)).
    rewrite (split_markers_free _ _ _ Hfree), app_nil_r, (IH _ Hbs).
    now rewrite rev_involutive.
Qed.

(** ** Pairing headings with contents *)

Lemma pair_at_normal sections i acc :
  exists acc', pair_at sections i acc = Normal acc'.
Proof.
  unfold pair_at.
  destruct (nth_error sections i) as [h|]; simpl.
  - destruct (truthy h && _); eauto.
  - eauto.
Qed.

Lemma pair_loop_unfold sections i acc :
  pair_loop sections i acc
  = if i <? length sections
    then acc' <- pair_at sections i acc ;; pair_loop sections (i + 2) acc'
    else Normal acc.
Proof.
  simp pair_loop.
  destruct (lt_dec i (length sections)) as [Hlt|Hge]; simpl.
  - rewrite (proj2 (Nat.ltb_lt _ _) Hlt).
    destruct (pair_at sections i acc); reflexivity.
  - rewrite (proj2 (Nat.ltb_nlt _ _) Hge). reflexivity.
Qed.

Lemma pair_loop_pairs l : forall done acc,
  pair_loop (done ++ l) (length done) acc = Normal (pairs l acc).
Proof.
  induction l as [l IH] using (induction_ltof1 _ (@length jsstring)).
  unfold ltof in IH. intros done acc.
  rewrite pair_loop_unfold, length_app.
  destruct l as [|h [|c rest]].
  - replace (length done <? length done + length (@nil jsstring)) with false
      by (symmetry; apply Nat.ltb_ge; simpl; lia).
    reflexivity.
  - replace (length done <? length done + length [h]) with true
      by (symmetry; apply Nat.ltb_lt; simpl; lia).
    unfold pair_at.
    rewrite nth_error_app2 by lia. rewrite nth_error_app2 by lia.
    replace (length done - length done) with 0 by lia.
    replace (length done + 1 - length done) with 1 by lia.
    simpl. rewrite andb_false_r. simpl.
    rewrite pair_loop_unfold, length_app.
    replace (length done + 2 <? length done + length [h]) with false
      by (symmetry; apply Nat.ltb_ge; simpl; lia).
    reflexivity.
  - replace (length done <? length done + length (h :: c :: rest)) with true
      by (symmetry; apply Nat.ltb_lt; simpl; lia).
    unfold pair_at.
    rewrite nth_error_app2 by lia. rewrite nth_error_app2 by lia.
    replace (length done - length done) with 0 by lia.
    replace (length done + 1 - length done) with 1 by lia.
    simpl nth_error. simpl truthy_value.
    assert (Hnext : forall acc',
               pair_loop (done ++ h :: c :: rest) (length done + 2) acc'
               = Normal (pairs rest acc')).
    { intros acc'.
      replace (done ++ h :: c :: rest) with ((done ++ [h; c]) ++ rest)
        by (now rewrite <- app_assoc).
      replace (length done + 2) with (length (done ++ [h; c]))
        by (rewrite length_app; simpl; lia).
      apply IH. simpl; lia. }
    destruct h as [|h0 h], c as [|c0 c]; simpl; apply Hnext.
Qed.

Lemma formatAnalysisText_pairs text :
  formatAnalysisText text
  = Normal (pairs (filter truthy (split_markers [] text)) []).
Proof.
  unfold formatAnalysisText. apply (pair_loop_pairs _ [] []).
Qed.

Lemma strip_ordinal_group b :
  well_formed_marker b = true ->
  strip_ordinal (marker_group b) = drop_while is_space (label b) ++ [COLON].
Proof.
  unfold well_formed_marker, marker_group, strip_ordinal.
  destruct b as [digits lbl blk]; simpl.
  intros H. repeat (apply andb_prop in H as [H ?]).
  rewrite (span_stop is_digit digits DOT _) by (assumption || reflexivity).
  destruct digits as [|d0 digits]; [discriminate|].
  simpl. apply drop_while_snoc. reflexivity.
Qed.

Lemma truthy_group b : truthy (marker_group b) = true.
Proof.
  unfold marker_group. destruct (ordinal b); reflexivity.
Qed.

Lemma parse_pairs text :
  parse text
  = Normal (map (fun section =>
                   {| sectionHeading := heading section;
                      sectionContent := renderFormattedContent (content section) |})
                (pairs (filter truthy (split_markers [] text)) [])).
Proof.
  unfold parse. destruct text as [|c text].
  - simp split_markers. reflexivity.
  - cbn [truthy]. now rewrite formatAnalysisText_pairs.
Qed.

Lemma filter_blocks bs :
  forallb (fun b => truthy (block b)) bs = true ->
  filter truthy (flat_map (fun b => [marker_group b; block b]) bs)
  = flat_map (fun b => [marker_group b; block b]) bs.
Proof.
  induction bs as [|b bs IH]; cbn [forallb flat_map app filter]; [reflexivity|].
  intros H. apply andb_prop in H as [Hb Hbs].
  now rewrite truthy_group, Hb, (IH Hbs).
Qed.

Lemma pairs_blocks bs : forall rest acc,
  forallb (fun b => truthy (block b)) bs = true ->
  pairs (flat_map (fun b => [marker_group b; block b]) bs ++ rest) acc
  = pairs rest
      (acc ++ map (fun b => {| heading := strip_ordinal (marker_group b);
                               content := trim (block b) |}) bs).
Proof.
  induction bs as [|b bs IH]; intros rest acc H;
    cbn [forallb flat_map app map pairs] in *.
  - now rewrite app_nil_r.
  - apply andb_prop in H as [Hb Hbs].
    rewrite truthy_group, Hb. cbn [andb].
    rewrite (IH _ _ Hbs), <- app_assoc. reflexivity.
Qed.

Lemma well_formed_markers bs :
  well_formed bs = true -> Forall (fun b => well_formed_marker b = true) bs.
Proof.
  induction bs as [|b bs IH]; cbn [well_formed]; intros H; constructor;
    apply andb_prop in H as [H Hbs]; apply andb_prop in H as [Hb _]; auto.
Qed.

Lemma map_shown bs :
  Forall (fun b => well_formed_marker b = true) bs ->
  map (fun section =>
         {| sectionHeading := heading section;
            sectionContent := renderFormattedContent (content section) |})
      (map (fun b => {| heading := strip_ordinal (marker_group b);
                        content := trim (block b) |}) bs)
  = map shown bs.
Proof.
  induction 1 as [|b bs Hb _ IH]; cbn [map]; [reflexivity|].
  rewrite IH. unfold shown at 1. cbn [heading content].
  now rewrite (strip_ordinal_group _ Hb).
Qed.

(** ** The parser on texts of headed blocks *)

Lemma scenarioA_document : document scenarioA_blocks = scenarioA.
Proof. reflexivity. Qed.

(** C1 (as amended).  For every text made of N well-formed heading markers,
    where nothing precedes the first marker and every marker is followed
    by a non-empty block, [parse] returns exactly N sections, in the order
    of the markers; the heading of each is the marker's label with the
    numeral, the period and the white space after it removed, and with its
    colon kept; its lines are those of the trimmed block. *)
Theorem parse_document bs :
  well_formed bs = true ->
  forallb (fun b => truthy (block b)) bs = true ->
  parse (document bs) = Normal (map shown bs)
  /\ length (map shown bs) = length bs
  /\ map sectionHeading (map shown bs)
     = map (fun b => drop_while is_space (label b) ++ [COLON]) bs.
Proof.
  intros Hwf Hblocks. split; [|split].
  - rewrite parse_pairs, (split_markers_document [] bs Hwf).
    cbn [rev filter truthy].
    rewrite (filter_blocks bs Hblocks).
    rewrite <- (app_nil_r (flat_map _ bs)).
    rewrite (pairs_blocks bs [] [] Hblocks). cbn [pairs app].
    f_equal. apply map_shown, well_formed_markers, Hwf.
  - apply length_map.
  - rewrite map_map. reflexivity.
Qed.

(** C1, on the two blocks of scenario A. *)
Lemma parse_document_witness :
  well_formed scenarioA_blocks = true
  /\ forallb (fun b => truthy (block b)) scenarioA_blocks = true
  /\ parse (document scenarioA_blocks) = Normal (map shown scenarioA_blocks).
Proof.
  split; [reflexivity | split; [reflexivity|]].
  apply (parse_document scenarioA_blocks); reflexivity.
Defined.

(** C1 as first stated fails: the one marker of this text has the label
    [A], and the heading returned is [A:], the colon still there. *)
Lemma parse_heading_keeps_colon :
  exists v,
    parse (lit "**1. A:** x") = Normal [v]
    /\ sectionHeading v = lit "A:"
    /\ sectionHeading v <> lit "A".
Proof.
  eexists. split; [vm_compute; reflexivity|].
  split; [reflexivity | discriminate].
Qed.

(** C2 (as amended).  Scenario A parses to two sections: heading
    [Design Style:] over a plain line [Modern] and a sub-point made of the
    bullet, a space and [Clean lines]; heading [Lighting:] over a plain
    line [Bright]. *)
Theorem parse_scenarioA :
  exists r,
    parse scenarioA = Normal r
    /\ outline r
       = [ (lit "Design Style:",
            [ (PLAIN, lit "Modern");
              (SUBPOINT, BULLET :: SPACE :: lit "Clean lines") ]);
           (lit "Lighting:", [ (PLAIN, lit "Bright") ]) ].
Proof.
  eexists. split; vm_compute; reflexivity.
Qed.

(** C2 as first stated fails: the headings come back with their colon and
    the sub-point with its bullet. *)
Lemma scenarioA_not_as_stated :
  ~ exists r,
      parse scenarioA = Normal r
      /\ outline r
         = [ (lit "Design Style",
              [ (PLAIN, lit "Modern"); (SUBPOINT, lit "Clean lines") ]);
             (lit "Lighting", [ (PLAIN, lit "Bright") ]) ].
Proof.
  intros (r & Hr & Hout).
  assert (Hparse : parse scenarioA
                   = Normal (map shown scenarioA_blocks))
    by (vm_compute; reflexivity).
  rewrite Hparse in Hr. inversion Hr; subst r. vm_compute in Hout.
  discriminate.
Qed.

(** C3, on a text with pre-text.  The pre-text is not discarded: it shifts
    the pairing by one, so the pre-text comes back as the heading of the
    only section and the marker as its content. *)
Theorem parse_pretext_shifts_pairing :
  exists r,
    parse (lit "Overview **1. Design Style:** Modern") = Normal r
    /\ outline r = [ (lit "Overview ", [ (PLAIN, lit "1. Design Style:") ]) ].
Proof.
  eexists. split; vm_compute; reflexivity.
Qed.

(** ** The lines of a block *)

Lemma renderLine_rendered line index :
  line_rendered line (renderLine line index).
Proof.
  unfold line_rendered, renderLine. rewrite startsWith_trim.
  destruct (bullet_marked line); cbn [style children]; split;
    try discriminate; intros _.
  - split; [reflexivity|]. destruct line as [|c r]; [discriminate|].
    cbn [startsWith replace_bullet tl]. now intros ->.
  - split; reflexivity.
Qed.

Lemma map_index_rendered lines : forall index,
  Forall2 line_rendered lines (map_index renderLine index lines).
Proof.
  induction lines as [|line lines IH]; intros index; cbn [map_index];
    constructor; [apply renderLine_rendered | apply IH].
Qed.

Lemma filter_nonblank lines :
  filter (fun line => truthy (trim line)) lines
  = filter (fun line => negb (blank line)) lines.
Proof.
  apply filter_ext. intros line. apply truthy_trim.
Qed.

Lemma map_index_bullets lines : forall index,
  forallb bullet_marked lines = true ->
  Forall (fun e => style e = SUBPOINT) (map_index renderLine index lines).
Proof.
  induction lines as [|line lines IH]; intros index H;
    cbn [map_index forallb] in *; constructor.
  - apply andb_prop in H as [H _].
    now apply (renderLine_rendered line index).
  - apply andb_prop in H as [_ H]. now apply IH.
Qed.

Lemma map_index_asterisks lines : forall index,
  forallb (startsWith STAR) lines = true ->
  map (fun e => (style e, children e)) (map_index renderLine index lines)
  = map (fun line => (SUBPOINT, BULLET :: SPACE :: drop_while is_space (tl line)))
        lines.
Proof.
  induction lines as [|line lines IH]; intros index H;
    cbn [map_index forallb map] in *; [reflexivity|].
  apply andb_prop in H as [Hline H]. rewrite (IH _ H). f_equal.
  assert (Hb : bullet_marked line = true).
  { destruct line as [|c r]; [discriminate|]. unfold bullet_marked.
    cbn [startsWith] in Hline. apply N.eqb_eq in Hline. subst c. reflexivity. }
  destruct (renderLine_rendered line index) as [Hyes _].
  destruct (Hyes Hb) as [-> Hc]. now rewrite (Hc Hline).
Qed.

(** C4 (as amended).  A content block is split into lines at the line
    feeds and the lines that are blank after trimming are dropped; the
    remaining lines are rendered one for one, in order.  A line whose first
    character that is not white space is an asterisk becomes a SUBPOINT,
    every other line a PLAIN line whose text is the line as it is, not
    trimmed.  A SUBPOINT line that starts with the asterisk has as text
    the bullet, one space, and the rest of the line without its leading
    white space (white space at the end stays).  In a block where every
    line is bullet-marked every rendered line is a SUBPOINT, and where every
    line starts with the asterisk each has the bullet in its place. *)
Theorem renderFormattedContent_lines content :
  let lines := filter (fun line => negb (blank line)) (split_lines content) in
  Forall2 line_rendered lines (renderFormattedContent content)
  /\ (forallb bullet_marked lines = true ->
      Forall (fun e => style e = SUBPOINT) (renderFormattedContent content))
  /\ (forallb (startsWith STAR) lines = true ->
      map (fun e => (style e, children e)) (renderFormattedContent content)
      = map (fun line =>
               (SUBPOINT, BULLET :: SPACE :: drop_while is_space (tl line)))
            lines).
Proof.
  intros lines. unfold renderFormattedContent.
  rewrite filter_nonblank. fold lines.
  split; [apply map_index_rendered|].
  split; [apply map_index_bullets | apply map_index_asterisks].
Qed.

(** C4, on a block of two bulleted lines. *)
Lemma renderFormattedContent_lines_witness :
  Forall (fun e => style e = SUBPOINT)
    (renderFormattedContent (lit "* Clean lines" ++ [LF] ++ lit "* Warm light"))
  /\ map (fun e => (style e, children e))
       (renderFormattedContent (lit "* Clean lines" ++ [LF] ++ lit "* Warm light"))
     = [ (SUBPOINT, BULLET :: SPACE :: lit "Clean lines");
         (SUBPOINT, BULLET :: SPACE :: lit "Warm light") ].
Proof.
  split.
  - apply (proj1 (proj2 (renderFormattedContent_lines
                           (lit "* Clean lines" ++ [LF] ++ lit "* Warm light")))).
    reflexivity.
  - apply (proj2 (proj2 (renderFormattedContent_lines
                           (lit "* Clean lines" ++ [LF] ++ lit "* Warm light")))).
    reflexivity.
Defined.

(** C4 as first stated fails: the middle line of this block has white
    space around it, and the PLAIN line rendered for it keeps it. *)
Lemma renderFormattedContent_keeps_spaces :
  let content := lit "Modern" ++ [LF] ++ lit "  and airy  " ++ [LF] ++ lit "Bright" in
  (exists line e,
      nth_error (split_lines content) 1 = Some line
      /\ nth_error (renderFormattedContent content) 1 = Some e
      /\ style e = PLAIN
      /\ children e = lit "  and airy  "
      /\ children e <> trim line)
  /\ (exists r,
        parse (lit "**1. Style:** " ++ content) = Normal r
        /\ outline r
           = [ (lit "Style:",
                [ (PLAIN, lit "Modern"); (PLAIN, lit "  and airy  ");
                  (PLAIN, lit "Bright") ]) ]).
Proof.
  cbv zeta. split.
  - eexists. eexists.
    split; [vm_compute; reflexivity|].
    split; [vm_compute; reflexivity|].
    split; [reflexivity|]. split; [reflexivity|].
    vm_compute. discriminate.
  - eexists. split; vm_compute; reflexivity.
Qed.

(** ** Markers without content, texts without markers *)

(** C5 (as amended).  In a text of well-formed blocks whose last marker
    ends the answer: when nothing at all follows that marker, no section
    is returned for it (the sections of the blocks before it are); when
    only white space follows it, its section is returned, with an empty
    body. *)
Theorem parse_last_marker bs b :
  well_formed (bs ++ [b]) = true ->
  forallb (fun b' => truthy (block b')) bs = true ->
  (block b = [] -> parse (document (bs ++ [b])) = Normal (map shown bs))
  /\ (truthy (block b) = true -> blank (block b) = true ->
      parse (document (bs ++ [b]))
      = Normal (map shown bs
                ++ [{| sectionHeading := drop_while is_space (label b) ++ [COLON];
                       sectionContent := [] |}])).
Proof.
  intros Hwf Hblocks.
  pose proof (well_formed_markers _ Hwf) as Hmarkers.
  apply Forall_app in Hmarkers as [Hbs Hb].
  apply Forall_inv in Hb.
  assert (Hsplit : filter truthy (split_markers [] (document (bs ++ [b])))
                   = flat_map (fun b => [marker_group b; block b]) bs
                     ++ marker_group b :: filter truthy [block b]).
  { rewrite (split_markers_document [] _ Hwf). cbn [rev filter truthy].
    rewrite flat_map_app, filter_app, (filter_blocks bs Hblocks).
    cbn [flat_map app filter]. now rewrite truthy_group. }
  split.
  - intros Hempty. rewrite parse_pairs, Hsplit, Hempty. cbn [filter truthy].
    rewrite (pairs_blocks bs _ [] Hblocks). cbn [pairs app].
    f_equal. now apply map_shown.
  - intros Htruthy Hblank. rewrite parse_pairs, Hsplit.
    cbn [filter]. rewrite Htruthy.
    rewrite (pairs_blocks bs _ [] Hblocks). cbn [pairs app].
    rewrite truthy_group, Htruthy. cbn [andb].
    rewrite map_app, (map_shown bs Hbs). cbn [map heading content].
    rewrite (strip_ordinal_group _ Hb), (trim_blank _ Hblank).
    reflexivity.
Qed.

(** C5, on a lone marker followed by nothing and by one space. *)
Lemma parse_last_marker_witness :
  parse (lit "**1. A:**") = Normal []
  /\ parse (lit "**1. A:** ")
     = Normal [{| sectionHeading := lit "A:"; sectionContent := [] |}].
Proof.
  split.
  - apply (proj1 (parse_last_marker []
                    {| ordinal := lit "1"; label := lit " A"; block := [] |}
                    eq_refl eq_refl)).
    reflexivity.
  - apply (proj2 (parse_last_marker []
                    {| ordinal := lit "1"; label := lit " A"; block := lit " " |}
                    eq_refl eq_refl)); reflexivity.
Defined.

(** C5 as first stated fails: this text is one well-formed marker with
    nothing after it, and no section comes back. *)
Lemma parse_drops_empty_section :
  well_formed_marker {| ordinal := lit "1"; label := lit " A"; block := [] |} = true
  /\ marker {| ordinal := lit "1"; label := lit " A"; block := [] |} = lit "**1. A:**"
  /\ parse (lit "**1. A:**") = Normal [].
Proof.
  split; [reflexivity|]. split; [reflexivity|]. vm_compute. reflexivity.
Qed.

Lemma split_markers_none text :
  has_marker text = false -> split_markers [] text = [text].
Proof.
  intros H. rewrite <- (app_nil_r text) at 1.
  rewrite (split_markers_free [] text [] (has_marker_free _ H)).
  simp split_markers. now rewrite app_nil_r, rev_involutive.
Qed.

(** C6.  The empty text, and every text in which the heading pattern
    matches nowhere, parse to the empty sequence of sections; the
    evaluation ends normally. *)
Theorem parse_no_marker :
  parse [] = Normal []
  /\ forall text, has_marker text = false -> parse text = Normal [].
Proof.
  split.
  - reflexivity.
  - intros text H. rewrite parse_pairs, (split_markers_none _ H).
    destruct text; reflexivity.
Qed.

(** C6, on an answer without headings. *)
Lemma parse_no_marker_witness :
  has_marker (lit "A bright room: modern, with clean lines.") = false
  /\ parse (lit "A bright room: modern, with clean lines.") = Normal [].
Proof.
  split; [reflexivity|].
  apply (proj2 parse_no_marker). reflexivity.
Defined.

(** C10.  [formatAnalysisText] and [parse] end normally on every text, and
    so does every turn of the pairing loop, at whatever index.  When the
    array ends with a heading that has no following element, the read past
    the end gives [undefined], the content defaults to the empty string
    and nothing is pushed.  [renderFormattedContent] returns one element
    for each line that is not blank. *)
Theorem parse_total :
  (forall text, exists sections, formatAnalysisText text = Normal sections)
  /\ (forall text, exists views, parse text = Normal views)
  /\ (forall sections i acc, exists acc', pair_at sections i acc = Normal acc')
  /\ (forall done heading acc,
        nth_error (done ++ [heading]) (length done + 1) = None
        /\ or_default (nth_error (done ++ [heading]) (length done + 1)) [] = []
        /\ pair_at (done ++ [heading]) (length done) acc = Normal acc)
  /\ (forall content,
        length (renderFormattedContent content)
        = length (filter (fun line => negb (blank line)) (split_lines content))).
Proof.
  split; [|split; [|split; [|split]]].
  - intros text. rewrite formatAnalysisText_pairs. eauto.
  - intros text. rewrite parse_pairs. eauto.
  - apply pair_at_normal.
  - intros done h acc.
    assert (Hnone : nth_error (done ++ [h]) (length done + 1) = None)
      by (apply nth_error_None; rewrite length_app; simpl; lia).
    split; [exact Hnone|]. unfold pair_at. rewrite Hnone.
    split; [reflexivity|]. cbn [or_default truthy]. now rewrite andb_false_r.
  - intros content. unfold renderFormattedContent. rewrite filter_nonblank.
    symmetry. exact (Forall2_length (map_index_rendered _ 0)).
Qed.

(** ** The capture session *)

Lemma world_eta w :
  {| state := state w; alerts := alerts w; requests := requests w;
     capturing := capturing w; picking := picking w; inFlight := inFlight w |}
  = w.
Proof. now destruct w. Qed.

Lemma analyzeRoom_no_key apiKey base64Image w :
  truthy_value apiKey = false ->
  analyzeRoom apiKey base64Image w
  = alert (title apiKeyAlert) (message apiKeyAlert) w.
Proof. intros H. unfold analyzeRoom. now rewrite H. Qed.

(** Without a key no event calls [generateContent]. *)
Lemma step_no_key layout apiKey w ev :
  truthy_value apiKey = false ->
  requests (step layout apiKey w ev) = requests w
  /\ inFlight (step layout apiKey w ev) <= inFlight w.
Proof.
  intros Hkey. destruct ev as [b|r|r|r]; cbn [step].
  - destruct (existsb _ _); [|split; [reflexivity | lia]].
    destruct b; cbn [onPress]; unfold takePicture, pickImage, resetAnalysis;
      try destruct (cameraRef _ _); destruct layout;
      cbn; split; (reflexivity || lia).
  - destruct (capturing w); [split; [reflexivity | lia]|].
    destruct r as [[photo|]|]; cbn [takePicture_settled];
      try rewrite (analyzeRoom_no_key _ _ _ Hkey); cbn; split; (reflexivity || lia).
  - destruct (picking w); [split; [reflexivity | lia]|].
    destruct r as [[[|] [[|asset l]|]]|]; cbn [pickImage_settled canceled assets];
      try rewrite (analyzeRoom_no_key _ _ _ Hkey); cbn; split; (reflexivity || lia).
  - destruct (inFlight w) eqn:Hw; [rewrite Hw; split; [reflexivity | lia]|].
    destruct r, layout; cbn; split; (reflexivity || lia).
Qed.

Lemma run_no_key layout apiKey evs : forall w,
  truthy_value apiKey = false ->
  requests (run layout apiKey w evs) = requests w.
Proof.
  induction evs as [|ev evs IH]; intros w Hkey; cbn [run fold_left].
  - reflexivity.
  - change (requests (run layout apiKey (step layout apiKey w ev) evs)
            = requests w).
    rewrite (IH _ Hkey). apply (step_no_key layout apiKey w ev Hkey).
Qed.

(** C7.  With no key configured (undefined, or the empty string)
    [analyzeRoom] returns at once: it raises the alert that asks for the
    API key, calls [generateContent] not at all, and leaves the captured
    image, the analysis, the loading flag and the panel flag as they were.
    No sequence of events of the screen ever produces a request. *)
Theorem analyzeRoom_without_key apiKey :
  truthy_value apiKey = false ->
  (forall base64Image w,
      let w' := analyzeRoom apiKey base64Image w in
      alerts w' = alerts w ++ [apiKeyAlert]
      /\ requests w' = requests w
      /\ inFlight w' = inFlight w
      /\ state w' = state w)
  /\ (forall layout evs,
        requests (run layout apiKey initial evs) = []).
Proof.
  intros Hkey. split.
  - intros base64Image w. cbv zeta.
    rewrite (analyzeRoom_no_key _ _ _ Hkey). cbn. repeat split.
  - intros layout evs. apply (run_no_key layout apiKey evs initial Hkey).
Qed.

(** C7, with the key undefined: a capture ends in the alert, with no
    request. *)
Lemma analyzeRoom_without_key_witness :
  let w := run ModalLayout None initial
             [Press CaptureButton; CameraSettled (Resolved (Some photo1))] in
  requests w = [] /\ alerts (analyzeRoom None (base64 photo1) initial) = [apiKeyAlert].
Proof.
  cbv zeta. split.
  - apply (proj2 (analyzeRoom_without_key None eq_refl)).
  - apply (proj1 (analyzeRoom_without_key None eq_refl) (base64 photo1) initial).
Defined.

Lemma idle_main_view layout s : idle s -> view layout s = MainView.
Proof.
  intros (Hc & _ & _ & Hm). unfold view. rewrite Hc, Hm.
  now destruct layout.
Qed.

(** C9.  From the idle screen, choosing Select Photo and dismissing the
    picker leaves everything as it was: the captured image, the analysis,
    the loading flag, and the alerts raised so far (none is added); the
    session is idle again.  On its own, the continuation of [pickImage]
    after a cancelled pick changes nothing in any state. *)
Theorem pickImage_cancelled layout apiKey w result :
  canceled result = true ->
  pickImage_settled apiKey (Resolved result) w = w
  /\ (idle (state w) ->
      let w' := run layout apiKey w
                  [Press SelectPhotoButton; PickerSettled (Resolved result)] in
      w' = w /\ idle (state w') /\ alerts w' = alerts w).
Proof.
  intros Hc. split.
  - cbn [pickImage_settled]. now rewrite Hc.
  - intros Hidle. cbv zeta.
    assert (Hrun : run layout apiKey w
                     [Press SelectPhotoButton; PickerSettled (Resolved result)]
                   = w).
    { cbn [run fold_left step]. unfold rendered.
      rewrite (idle_main_view layout _ Hidle).
      cbn [existsb app Button_eqb orb onPress pickImage picking
             pickImage_settled state alerts requests capturing inFlight].
      rewrite Hc. apply world_eta. }
    rewrite Hrun. auto.
Qed.

(** C9, from the screen as it starts. *)
Lemma pickImage_cancelled_witness :
  run ModalLayout someKey initial
    [Press SelectPhotoButton; PickerSettled (Resolved cancelled)]
  = initial.
Proof.
  apply (proj2 (pickImage_cancelled ModalLayout someKey initial cancelled eq_refl)).
  repeat split.
Defined.

(** C8 (as amended).  While the analysis view is displayed (a captured
    image is held and the result panel is closed), the capture and the
    pick trigger are not rendered: pressing either changes nothing, and
    [takePicture] finds no camera and does nothing.  When moreover no
    capture or pick begun earlier is still pending, no event calls
    [generateContent] or adds a request in flight. *)
Theorem triggers_hidden_in_analysis_view layout apiKey w :
  view layout (state w) = AnalysisView ->
  step layout apiKey w (Press CaptureButton) = w
  /\ step layout apiKey w (Press SelectPhotoButton) = w
  /\ takePicture layout w = w
  /\ (capturing w = 0 -> picking w = 0 ->
      forall ev,
        requests (step layout apiKey w ev) = requests w
        /\ inFlight (step layout apiKey w ev) <= inFlight w).
Proof.
  intros Hview.
  assert (Hpress : forall b,
             b <> TakeAnotherButton -> step layout apiKey w (Press b) = w).
  { intros b Hb. cbn [step]. unfold rendered. rewrite Hview.
    destruct b; try reflexivity. now elim Hb. }
  split; [apply Hpress; discriminate|].
  split; [apply Hpress; discriminate|].
  split; [unfold takePicture, cameraRef; now rewrite Hview|].
  intros Hcap Hpick ev. destruct ev as [b|r|r|r].
  - destruct b; try (rewrite Hpress by discriminate; split; [reflexivity | lia]).
    cbn [step]. destruct (existsb _ _); [|split; [reflexivity | lia]].
    cbn [onPress]. unfold resetAnalysis. destruct layout; cbn;
      split; (reflexivity || lia).
  - cbn [step]. rewrite Hcap. split; [reflexivity | lia].
  - cbn [step]. rewrite Hpick. split; [reflexivity | lia].
  - cbn [step]. destruct (inFlight w) eqn:Hw; [rewrite Hw; split; [reflexivity | lia]|].
    destruct r, layout; cbn; split; (reflexivity || lia).
Qed.

(** C8, in the state a capture leads to: the request is in flight and the
    analysis view is displayed. *)
Lemma triggers_hidden_in_analysis_view_witness :
  let w := run ModalLayout someKey initial
             [Press CaptureButton; CameraSettled (Resolved (Some photo1))] in
  inFlight w = 1
  /\ step ModalLayout someKey w (Press CaptureButton) = w
  /\ step ModalLayout someKey w (Press SelectPhotoButton) = w.
Proof.
  cbv zeta. split; [reflexivity|].
  split;
    apply (triggers_hidden_in_analysis_view ModalLayout someKey
             (run ModalLayout someKey initial
                [Press CaptureButton; CameraSettled (Resolved (Some photo1))])
             eq_refl).
Defined.

(** C8 as first stated fails.  A capture starts a request; Take Another
    Photo, pressed while it is in flight, brings the capture button back
    although the loading flag is still set; a second capture then starts
    a second request while the first is still in flight. *)
Lemma second_request_while_analyzing :
  let w1 := run ModalLayout someKey initial
              [Press CaptureButton; CameraSettled (Resolved (Some photo1));
               Press TakeAnotherButton] in
  let w2 := run ModalLayout someKey w1
              [Press CaptureButton; CameraSettled (Resolved (Some photo2))] in
  loading (state w1) = true
  /\ inFlight w1 = 1
  /\ step ModalLayout someKey w1 (Press CaptureButton) <> w1
  /\ requests w2 = [base64 photo1; base64 photo2]
  /\ inFlight w2 = 2.
Proof.
  cbv zeta. split; [reflexivity|]. split; [reflexivity|].
  split; [vm_compute; discriminate|]. split; reflexivity.
Qed.

(** * Further properties of the parser *)

Lemma span_spec p s : forall a b,
  span p s = (a, b) ->
  s = a ++ b /\ forallb p a = true
  /\ match b with [] => True | c :: _ => p c = false end.
Proof.
  induction s as [|c s IH]; intros a b H; simpl in H.
  - inversion H; subst. repeat split.
  - destruct (p c) eqn:Hc.
    + destruct (span p s) as [a' b'] eqn:Hs. inversion H; subst.
      destruct (IH a' b eq_refl) as (-> & Ha & Hb).
      simpl. rewrite Hc, Ha. repeat split. exact Hb.
    + inversion H; subst. simpl. repeat split. exact Hc.
Qed.

Lemma heading_marker_shape s cap rest :
  heading_marker s = Some (cap, rest) ->
  exists digits lbl,
    digits <> [] /\ forallb is_digit digits = true
    /\ lbl <> [] /\ forallb not_colon lbl = true
    /\ cap = digits ++ [DOT] ++ lbl ++ [COLON]
    /\ s = [STAR; STAR] ++ cap ++ [STAR; STAR] ++ rest.
Proof.
  unfold heading_marker.
  destruct s as [|a [|b s1]]; try discriminate.
  destruct ((a =? STAR) && (b =? STAR))%N eqn:Hab; try discriminate.
  apply andb_prop in Hab as [Ha Hb].
  apply N.eqb_eq in Ha, Hb. subst a b.
  destruct (span is_digit s1) as [digits s2] eqn:H1.
  apply span_spec in H1 as (-> & Hdigits & _).
  destruct digits as [|d0 digits]; try discriminate.
  destruct s2 as [|d s3]; try discriminate.
  destruct (d =? DOT)%N eqn:Hd; try discriminate.
  apply N.eqb_eq in Hd. subst d.
  destruct (span not_colon s3) as [lbl s4] eqn:H2.
  apply span_spec in H2 as (-> & Hlbl & _).
  destruct lbl as [|l0 lbl]; try discriminate.
  destruct s4 as [|c [|x [|y s5]]]; try discriminate.
  destruct ((c =? COLON) && (x =? STAR) && (y =? STAR))%N eqn:Hc;
    try discriminate.
  apply andb_prop in Hc as [Hc Hy]. apply andb_prop in Hc as [Hc Hx].
  apply N.eqb_eq in Hc, Hx, Hy. subst c x y.
  intros H. inversion H; subst.
  exists (d0 :: digits), (l0 :: lbl).
  repeat split; try discriminate; try assumption.
  simpl. repeat (rewrite <- app_assoc; simpl). reflexivity.
Qed.

(** X1.  The heading pattern matches at the start of a text exactly when
    the text starts with two asterisks, one or more digits, a period, one
    or more characters other than a colon, a colon and two asterisks; the
    captured group is what stands between the asterisks and the rest is
    what follows them. *)
Theorem heading_marker_exact s cap rest :
  heading_marker s = Some (cap, rest)
  <-> exists digits lbl,
        digits <> [] /\ forallb is_digit digits = true
        /\ lbl <> [] /\ forallb not_colon lbl = true
        /\ cap = digits ++ [DOT] ++ lbl ++ [COLON]
        /\ s = [STAR; STAR] ++ cap ++ [STAR; STAR] ++ rest.
Proof.
  split; [apply heading_marker_shape|].
  intros (digits & lbl & Hd & Hdigits & Hl & Hlbl & -> & ->).
  assert (Hwf : well_formed_marker
                  {| ordinal := digits; label := lbl; block := [] |} = true).
  { unfold well_formed_marker. cbn [ordinal label].
    rewrite Hdigits, Hlbl. destruct digits, lbl; try reflexivity;
      contradiction. }
  pose proof (heading_marker_marker _ rest Hwf) as H.
  unfold marker, marker_group in H. cbn [ordinal label] in H.
  repeat rewrite <- app_assoc in *. exact H.
Qed.

(** X1, on a marker followed by text. *)
Lemma heading_marker_exact_witness :
  heading_marker (lit "**12. Lighting:** Bright")
  = Some (lit "12. Lighting:", lit " Bright").
Proof.
  apply (proj2 (heading_marker_exact (lit "**12. Lighting:** Bright")
                  (lit "12. Lighting:") (lit " Bright"))).
  exists (lit "12"), (lit " Lighting").
  repeat split; (discriminate || reflexivity).
Defined.

Lemma rejoin_split_markers s : forall piece,
  rejoin (split_markers piece s) = rev piece ++ s
  /\ Nat.Odd (length (split_markers piece s)).
Proof.
  induction s as [s IH] using (induction_ltof1 _ (@length codeunit)).
  unfold ltof in IH. intros piece.
  destruct s as [|c s'].
  - simp split_markers. cbn [rejoin length]. rewrite app_nil_r.
    split; [reflexivity | exists 0; reflexivity].
  - destruct (heading_marker (c :: s')) as [[cap rest]|] eqn:Hm.
    + rewrite (split_markers_match piece _ _ _ Hm).
      pose proof (heading_marker_shorter _ _ _ Hm) as Hlen.
      destruct (IH rest Hlen []) as [Hre [k Hk]].
      apply heading_marker_shape in Hm
        as (digits & lbl & _ & _ & _ & _ & _ & Hs).
      cbn [rejoin length]. rewrite Hre, Hs, Hk. cbn [rev app].
      split; [reflexivity | exists (S k); lia].
    + rewrite (split_markers_skip _ _ _ Hm).
      destruct (IH s' (Nat.lt_succ_diag_r _) (c :: piece)) as [Hre Hodd].
      split; [|exact Hodd].
      rewrite Hre. cbn [rev]. now rewrite <- app_assoc.
Qed.

(** X2.  The split at the heading markers loses nothing: the pieces, with
    every captured group put back between its asterisks, give the text
    again.  The number of pieces is odd: pieces and groups alternate,
    starting and ending with a piece. *)
Theorem split_markers_rejoin text :
  rejoin (split_markers [] text) = text
  /\ Nat.Odd (length (split_markers [] text)).
Proof.
  exact (rejoin_split_markers text []).
Qed.

Lemma pairs_length l : forall acc,
  2 * length (pairs l acc) <= 2 * length acc + length l.
Proof.
  induction l as [l IH] using (induction_ltof1 _ (@length jsstring)).
  unfold ltof in IH. intros acc.
  destruct l as [|h [|c rest]]; cbn [pairs length]; try lia.
  assert (Hrest : forall acc', 2 * length (pairs rest acc')
                               <= 2 * length acc' + length rest)
    by (intros acc'; apply IH; simpl; lia).
  destruct (truthy h && truthy c).
  - specialize (Hrest (acc ++ [{| heading := strip_ordinal h;
                                  content := trim c |}])).
    rewrite length_app in Hrest. simpl in Hrest. lia.
  - specialize (Hrest acc). lia.
Qed.

(** X3.  [formatAnalysisText] never returns more sections than the
    pattern found markers: with k markers the split has 2k+1 pieces, and
    twice the number of sections, plus one, is at most that. *)
Theorem formatAnalysisText_bound text sections :
  formatAnalysisText text = Normal sections ->
  2 * length sections + 1 <= length (split_markers [] text).
Proof.
  rewrite formatAnalysisText_pairs. intros H. inversion H; subst.
  pose proof (pairs_length (filter truthy (split_markers [] text)) []) as Hp.
  pose proof (filter_length_le truthy (split_markers [] text)) as Hf.
  destruct (rejoin_split_markers text []) as [_ [k Hk]].
  cbn [length] in Hp. lia.
Qed.

(** X3, on scenario A: two markers, two sections. *)
Lemma formatAnalysisText_bound_witness :
  2 * length (map (fun b => {| heading := strip_ordinal (marker_group b);
                               content := trim (block b) |}) scenarioA_blocks) + 1
  <= length (split_markers [] scenarioA).
Proof.
  apply (formatAnalysisText_bound scenarioA). reflexivity.
Defined.

Lemma drop_while_head p s c r : drop_while p s = c :: r -> p c = false.
Proof.
  induction s as [|x s IH]; simpl; [discriminate|].
  destruct (p x) eqn:Hx; [exact IH|]. intros H. inversion H; subst. exact Hx.
Qed.

Lemma trim_first s c : hd_error (trim s) = Some c -> is_space c = false.
Proof.
  unfold trim, trimStart.
  destruct (drop_while is_space s) as [|x r] eqn:Hd.
  - discriminate.
  - pose proof (drop_while_head _ _ _ _ Hd) as Hx.
    destruct (trimEnd_cons x r Hx) as [r' ->]. cbn. intros H.
    inversion H; subst. exact Hx.
Qed.

Lemma trim_last s c : hd_error (rev (trim s)) = Some c -> is_space c = false.
Proof.
  unfold trim, trimEnd. rewrite rev_involutive.
  destruct (drop_while is_space (rev (trimStart s))) as [|x r] eqn:Hd.
  - discriminate.
  - cbn. intros H. inversion H; subst. exact (drop_while_head _ _ _ _ Hd).
Qed.

Lemma pairs_Forall (P : FormattedSection -> Prop) l :
  (forall h c, P {| heading := strip_ordinal h; content := trim c |}) ->
  forall acc, Forall P acc -> Forall P (pairs l acc).
Proof.
  intros HP.
  induction l as [l IH] using (induction_ltof1 _ (@length jsstring)).
  unfold ltof in IH. intros acc Hacc.
  destruct l as [|h [|c rest]]; cbn [pairs]; try assumption.
  destruct (truthy h && truthy c); apply IH; try (simpl; lia); try assumption.
  apply Forall_app. split; [assumption|]. constructor; [apply HP | constructor].
Qed.

(** X4.  Every section [formatAnalysisText] returns has its content
    trimmed: the content neither starts nor ends with white space. *)
Theorem formatAnalysisText_trimmed text sections :
  formatAnalysisText text = Normal sections ->
  Forall (fun section =>
            forall c,
              hd_error (content section) = Some c
              \/ hd_error (rev (content section)) = Some c ->
              is_space c = false)
         sections.
Proof.
  rewrite formatAnalysisText_pairs. intros H. inversion H; subst.
  apply pairs_Forall; [|constructor].
  intros h c0 c [Hc|Hc]; cbn [content] in Hc.
  - exact (trim_first _ _ Hc).
  - exact (trim_last _ _ Hc).
Qed.

(** X4, on a block with white space on both sides. *)
Lemma formatAnalysisText_trimmed_witness :
  Forall (fun section =>
            forall c,
              hd_error (content section) = Some c
              \/ hd_error (rev (content section)) = Some c ->
              is_space c = false)
         [{| heading := lit "Style:"; content := lit "Modern" |}].
Proof.
  apply (formatAnalysisText_trimmed (lit "**1. Style:**   Modern  ")).
  reflexivity.
Defined.

Lemma renderLine_key line index : key (renderLine line index) = index.
Proof. unfold renderLine. now destruct (startsWith STAR (trim line)). Qed.

Lemma map_index_keys lines : forall index,
  map key (map_index renderLine index lines) = seq index (length lines).
Proof.
  induction lines as [|line lines IH]; intros index; cbn [map_index map length seq].
  - reflexivity.
  - now rewrite renderLine_key, IH.
Qed.

(** X5.  The keys of the elements [renderFormattedContent] returns are
    0, 1, 2, ... in order: no two elements of a section share a key. *)
Theorem renderFormattedContent_keys content :
  map key (renderFormattedContent content)
  = seq 0 (length (renderFormattedContent content))
  /\ NoDup (map key (renderFormattedContent content)).
Proof.
  assert (H : map key (renderFormattedContent content)
              = seq 0 (length (renderFormattedContent content))).
  { unfold renderFormattedContent. rewrite map_index_keys. f_equal.
    rewrite <- (length_map key), map_index_keys. now rewrite length_seq. }
  split; [exact H|]. rewrite H. apply seq_NoDup.
Qed.

Lemma split_lines_no_line_feed s :
  Forall (fun line => has_line_feed line = false) (split_lines s).
Proof.
  induction s as [|c s IH]; cbn [split_lines].
  - repeat constructor.
  - destruct (c =? LF)%N eqn:Hc.
    + constructor; [reflexivity | exact IH].
    + destruct (split_lines s) as [|l ls].
      * repeat constructor. unfold has_line_feed. cbn [existsb].
        now rewrite N.eqb_sym, Hc.
      * inversion IH; subst. constructor; [|assumption].
        unfold has_line_feed in *. cbn [existsb].
        now rewrite N.eqb_sym, Hc.
Qed.





Lemma split_lines_nonempty s : split_lines s <> [].
Proof.
  destruct s as [|c s]; cbn [split_lines]; [discriminate|].
  destruct (c =? LF)%N; [discriminate|].
  destruct (split_lines s); discriminate.
Qed.

(** X7.  Splitting a block at its line feeds loses only the line feeds:
    the lines joined by line feeds give the block again, and no line
    contains a line feed. *)
Theorem split_lines_join s :
  join_lines (split_lines s) = s
  /\ Forall (fun line => has_line_feed line = false) (split_lines s).
Proof.
  split; [|apply split_lines_no_line_feed].
  induction s as [|c s IH]; cbn [split_lines]; [reflexivity|].
  destruct (c =? LF)%N eqn:Hc.
  - apply N.eqb_eq in Hc. subst c.
    pose proof (split_lines_nonempty s) as Hne.
    destruct (split_lines s) as [|l ls]; [contradiction|].
    cbn [join_lines app] in *. now rewrite IH.
  - destruct (split_lines s) as [|l ls] eqn:Hs.
    + now elim (split_lines_nonempty s).
    + cbn [join_lines] in *. destruct ls as [|l' ls].
      * now rewrite IH.
      * rewrite <- IH. reflexivity.
Qed.








(** * Further properties of the capture session *)

(** Case analysis on a world and a layout, with every handler unfolded. *)
Ltac open_world w :=
  destruct w as [[ci an ld sm] al rq cp pk inf].

Ltac unfold_screen :=
  unfold run, step, onPress, takePicture, takePicture_settled, pickImage,
    pickImage_settled, analyzeRoom, analyzeRoom_settled, resetAnalysis,
    rendered, cameraRef, view, generateContent, alert, setLoading,
    setShowModal, setAnalysis, setCapturedImage, with_state in *;
  cbn [fold_left state alerts requests capturing picking inFlight
         capturedImage analysis loading showModal canceled assets
         title message uri base64] in *.

Ltac break_matches :=
  repeat match goal with
         | |- context [match ?x with _ => _ end] => destruct x
         end.

Lemma step_settled_invariant layout apiKey w ev :
  inFlight w <= length (requests w)
  /\ (inFlight w = 0 -> loading (state w) = false) ->
  inFlight (step layout apiKey w ev) <= length (requests (step layout apiKey w ev))
  /\ (inFlight (step layout apiKey w ev) = 0 ->
      loading (state (step layout apiKey w ev)) = false).
Proof.
  open_world w. intros [Hle Hload]. cbn in Hle, Hload.
  destruct ev as [b|r|r|r]; unfold_screen.
  - destruct (existsb _ _); [|now split].
    destruct b, layout; cbn; try (now split);
      break_matches; cbn; now split.
  - destruct cp; [now split|].
    destruct r as [[photo|]|]; cbn; try (now split).
    destruct (negb (truthy_value apiKey)); cbn; [now split|].
    rewrite length_app; cbn. split; [lia | discriminate].
  - destruct pk; [now split|].
    destruct r as [[[|] [[|asset l]|]]|]; cbn; try (now split).
    destruct (negb (truthy_value apiKey)); cbn; [now split|].
    rewrite length_app; cbn. split; [lia | discriminate].
  - destruct inf; [now split|].
    destruct r, layout; cbn; split; (lia || reflexivity).
Qed.

(** X9.  In every state the screen can reach, the requests in flight are
    among the requests sent, and once every request has settled the
    loading flag is off. *)
Theorem loading_off_when_settled layout apiKey evs :
  let w := run layout apiKey initial evs in
  inFlight w <= length (requests w)
  /\ (inFlight w = 0 -> loading (state w) = false).
Proof.
  cbv zeta. unfold run.
  assert (H : inFlight initial <= length (requests initial)
              /\ (inFlight initial = 0 -> loading (state initial) = false))
    by (split; [apply Nat.le_refl | reflexivity]).
  revert H. generalize initial as w.
  induction evs as [|ev evs IH]; intros w H; cbn [fold_left]; [exact H|].
  apply IH, step_settled_invariant, H.
Qed.

(** X9, after a capture whose request was rejected. *)
Lemma loading_off_when_settled_witness :
  loading (state (run ModalLayout someKey initial
                    [Press CaptureButton; CameraSettled (Resolved (Some photo1));
                     ModelSettled Rejected])) = false.
Proof.
  apply (proj2 (loading_off_when_settled ModalLayout someKey
                  [Press CaptureButton; CameraSettled (Resolved (Some photo1));
                   ModelSettled Rejected])).
  reflexivity.
Defined.

(** X10.  With a key configured, from the main view: a capture whose
    photograph arrives and whose request is answered holds the image,
    stores the answer, clears the loading flag and has sent exactly one
    request, carrying that photograph; no alert is raised.  The modal
    layout then opens the result panel on the parsed answer; the other
    layout shows the raw answer when it is not empty, the spinner when it
    is.  Picking the photograph from the gallery ends in the same
    world. *)
Theorem analysis_cycle_success layout apiKey w photo more text :
  truthy_value apiKey = true ->
  view layout (state w) = MainView ->
  let w' := run layout apiKey w
              [Press CaptureButton; CameraSettled (Resolved (Some photo));
               ModelSettled (Resolved text)] in
  capturedImage (state w') = Some (uri photo)
  /\ analysis (state w') = text
  /\ loading (state w') = false
  /\ requests w' = requests w ++ [base64 photo]
  /\ alerts w' = alerts w
  /\ inFlight w' = inFlight w
  /\ match layout with
     | ModalLayout => resultPanel layout (state w') = Some (parse text)
     | InlineLayout =>
         showModal (state w') = showModal (state w)
         /\ analysisPanel layout (state w')
            = if truthy text then ResultText text else Spinner
     end
  /\ run layout apiKey w
       [Press SelectPhotoButton;
        PickerSettled (Resolved {| canceled := false;
                                   assets := Some (photo :: more) |});
        ModelSettled (Resolved text)]
     = w'.
Proof.
  intros Hkey Hview. open_world w. cbv zeta.
  destruct apiKey as [[|k ks]|]; try discriminate.
  destruct layout, ci as [[|c u]|], sm; try discriminate;
    cbn; repeat split.
Qed.

(** X10, from the screen as it starts. *)
Lemma analysis_cycle_success_witness :
  resultPanel ModalLayout
    (state (run ModalLayout someKey initial
              [Press CaptureButton; CameraSettled (Resolved (Some photo1));
               ModelSettled (Resolved scenarioA)]))
  = Some (parse scenarioA).
Proof.
  apply (analysis_cycle_success ModalLayout someKey initial photo1 []
           scenarioA eq_refl eq_refl).
Defined.

(** X11.  With a key configured, from the idle screen: when the request
    of a capture is rejected, the image stays held, no answer is stored,
    the loading flag is cleared and the one alert raised is the analysis
    failure; the analysis view is displayed, and Take Another Photo
    brings the screen back to idle. *)
Theorem analysis_cycle_failure layout apiKey w photo :
  truthy_value apiKey = true ->
  idle (state w) ->
  truthy (uri photo) = true ->
  let failed := run layout apiKey w
                  [Press CaptureButton; CameraSettled (Resolved (Some photo));
                   ModelSettled Rejected] in
  let w' := step layout apiKey failed (Press TakeAnotherButton) in
  state failed = {| capturedImage := Some (uri photo); analysis := [];
                    loading := false; showModal := false |}
  /\ view layout (state failed) = AnalysisView
  /\ alerts failed = alerts w ++ [analyzeAlert]
  /\ requests failed = requests w ++ [base64 photo]
  /\ inFlight failed = inFlight w
  /\ idle (state w')
  /\ alerts w' = alerts failed
  /\ requests w' = requests failed.
Proof.
  intros Hkey (Hci & Han & Hld & Hsm) Huri. open_world w.
  cbn in Hci, Han, Hld, Hsm. subst ci an ld sm. cbv zeta.
  destruct apiKey as [[|k ks]|]; try discriminate.
  destruct photo as [[|c u] b64]; try discriminate.
  destruct layout; cbn; repeat split.
Qed.

(** X11, from the screen as it starts. *)
Lemma analysis_cycle_failure_witness :
  idle (state (run ModalLayout someKey initial
                 [Press CaptureButton; CameraSettled (Resolved (Some photo1));
                  ModelSettled Rejected; Press TakeAnotherButton])).
Proof.
  apply (analysis_cycle_failure ModalLayout someKey initial photo1
           eq_refl (conj eq_refl (conj eq_refl (conj eq_refl eq_refl)))
           eq_refl).
Defined.

(** X12.  Wherever a Take Another Photo button is rendered, pressing it
    discards the image and the answer, closes the result panel and shows
    the main view with the capture and pick buttons; the loading flag and
    the requests in flight are left as they are, so a request in flight
    is not cancelled. *)
Theorem take_another_shows_triggers layout apiKey w b :
  b = TakeAnotherButton \/ b = ModalTakeAnotherButton ->
  existsb (Button_eqb b) (rendered layout (state w)) = true ->
  let w' := step layout apiKey w (Press b) in
  capturedImage (state w') = None
  /\ analysis (state w') = []
  /\ resultPanel layout (state w') = None
  /\ view layout (state w') = MainView
  /\ existsb (Button_eqb CaptureButton) (rendered layout (state w')) = true
  /\ existsb (Button_eqb SelectPhotoButton) (rendered layout (state w')) = true
  /\ loading (state w') = loading (state w)
  /\ inFlight w' = inFlight w
  /\ requests w' = requests w
  /\ alerts w' = alerts w.
Proof.
  intros Hb Hrendered. cbv zeta. open_world w.
  destruct Hb; subst b;
    destruct layout, ci as [[|c u]|], sm; try discriminate;
    cbn; repeat split.
Qed.

(** X12, while a request is in flight. *)
Lemma take_another_shows_triggers_witness :
  let w := run ModalLayout someKey initial
             [Press CaptureButton; CameraSettled (Resolved (Some photo1))] in
  let w' := step ModalLayout someKey w (Press TakeAnotherButton) in
  inFlight w' = 1
  /\ existsb (Button_eqb CaptureButton) (rendered ModalLayout (state w')) = true.
Proof.
  cbv zeta.
  pose proof (take_another_shows_triggers ModalLayout someKey
                (run ModalLayout someKey initial
                   [Press CaptureButton; CameraSettled (Resolved (Some photo1))])
                TakeAnotherButton (or_introl eq_refl) eq_refl) as H.
  cbv zeta in H. split; [apply H | apply H].
Defined.





(** X14.  From the main view, a capture or a pick that fails leaves the
    screen as it was but for one alert: a rejected capture raises the
    take-picture alert; a rejected pick, or a pick that is not cancelled
    yet carries no asset list, raises the pick-image alert.  A capture
    that returns no photograph and a pick with an empty asset list change
    nothing at all. *)
Theorem acquisition_failures layout apiKey w :
  view layout (state w) = MainView ->
  run layout apiKey w [Press CaptureButton; CameraSettled Rejected]
  = alert (title takePictureAlert) (message takePictureAlert) w
  /\ run layout apiKey w [Press CaptureButton; CameraSettled (Resolved None)]
     = w
  /\ run layout apiKey w [Press SelectPhotoButton; PickerSettled Rejected]
     = alert (title pickImageAlert) (message pickImageAlert) w
  /\ run layout apiKey w
       [Press SelectPhotoButton;
        PickerSettled (Resolved {| canceled := false; assets := None |})]
     = alert (title pickImageAlert) (message pickImageAlert) w
  /\ run layout apiKey w
       [Press SelectPhotoButton;
        PickerSettled (Resolved {| canceled := false; assets := Some [] |})]
     = w.
Proof.
  intros Hview. open_world w.
  destruct layout, ci as [[|c u]|], sm; try discriminate;
    cbn; repeat split.
Qed.

(** X14, from the screen as it starts. *)
Lemma acquisition_failures_witness :
  alerts (run InlineLayout someKey initial
            [Press CaptureButton; CameraSettled Rejected])
  = [takePictureAlert].
Proof.
  rewrite (proj1 (acquisition_failures InlineLayout someKey initial eq_refl)).
  reflexivity.
Defined.

Lemma step_no_key_quiet layout apiKey w ev :
  truthy_value apiKey = false ->
  analysis (state w) = [] /\ loading (state w) = false
  /\ showModal (state w) = false /\ inFlight w = 0 ->
  analysis (state (step layout apiKey w ev)) = []
  /\ loading (state (step layout apiKey w ev)) = false
  /\ showModal (state (step layout apiKey w ev)) = false
  /\ inFlight (step layout apiKey w ev) = 0.
Proof.
  intros Hkey (Han & Hld & Hsm & Hinf). open_world w.
  cbn in Han, Hld, Hsm, Hinf. subst an ld sm inf.
  destruct apiKey as [[|k ks]|]; try discriminate;
    destruct ev as [b|r|r|r].
  all: try (destruct b, layout, ci as [[|c u]|]; cbn; repeat split).
  all: try (destruct cp; [cbn; repeat split|];
            destruct r as [[photo|]|]; cbn; repeat split).
  all: try (destruct pk; [cbn; repeat split|];
            destruct r as [[[|] [[|asset l]|]]|]; cbn; repeat split).
  all: cbn; repeat split.
Qed.

(** X15.  With no key configured, whatever happens on the screen: no
    answer is ever stored, the loading flag stays off, the result panel
    never opens, and the panel of the analysis view is the spinner.  After
    a capture the analysis view is displayed, so the spinner shows although
    nothing is being analysed. *)
Theorem no_key_spinner apiKey :
  truthy_value apiKey = false ->
  (forall layout evs,
      let w := run layout apiKey initial evs in
      analysis (state w) = []
      /\ loading (state w) = false
      /\ inFlight w = 0
      /\ resultPanel layout (state w) = None
      /\ analysisPanel layout (state w) = Spinner)
  /\ (forall layout photo,
        truthy (uri photo) = true ->
        let w := run layout apiKey initial
                   [Press CaptureButton; CameraSettled (Resolved (Some photo))] in
        view layout (state w) = AnalysisView
        /\ capturedImage (state w) = Some (uri photo)
        /\ alerts w = [apiKeyAlert]).
Proof.
  intros Hkey. split.
  - intros layout evs. cbv zeta.
    assert (H : analysis (state (run layout apiKey initial evs)) = []
                /\ loading (state (run layout apiKey initial evs)) = false
                /\ showModal (state (run layout apiKey initial evs)) = false
                /\ inFlight (run layout apiKey initial evs) = 0).
    { unfold run.
      assert (H0 : analysis (state initial) = [] /\ loading (state initial) = false
                   /\ showModal (state initial) = false /\ inFlight initial = 0)
        by (repeat split).
      revert H0. generalize initial as w.
      induction evs as [|ev evs IH]; intros w H0; cbn [fold_left]; [exact H0|].
      apply IH, step_no_key_quiet; assumption. }
    destruct H as (Han & Hld & Hsm & Hinf).
    repeat split; try assumption.
    + unfold resultPanel. rewrite Hsm. now destruct layout.
    + unfold analysisPanel. rewrite Hld, Han. now destruct layout.
  - intros layout photo Huri. cbv zeta.
    destruct apiKey as [[|k ks]|]; try discriminate;
      destruct photo as [[|c u] b64]; try discriminate;
      destruct layout; cbn; repeat split.
Qed.

(** X15, with the key undefined. *)
Lemma no_key_spinner_witness :
  analysisPanel InlineLayout
    (state (run InlineLayout None initial
              [Press CaptureButton; CameraSettled (Resolved (Some photo1));
               ModelSettled (Resolved scenarioA)]))
  = Spinner.
Proof.
  apply (proj1 (no_key_spinner None eq_refl) InlineLayout
           [Press CaptureButton; CameraSettled (Resolved (Some photo1));
            ModelSettled (Resolved scenarioA)]).
Defined.

(** X16.  In the modal layout, closing the result panel after an answered
    capture keeps the image and the answer but leaves the analysis view,
    whose panel is the spinner and whose only button is Take Another
    Photo: no button press shows the result panel again. *)
Theorem result_panel_closed apiKey w photo text :
  truthy_value apiKey = true ->
  view ModalLayout (state w) = MainView ->
  truthy (uri photo) = true ->
  let opened := run ModalLayout apiKey w
                  [Press CaptureButton; CameraSettled (Resolved (Some photo));
                   ModelSettled (Resolved text)] in
  let closed := step ModalLayout apiKey opened (Press ModalCloseButton) in
  capturedImage (state closed) = Some (uri photo)
  /\ analysis (state closed) = text
  /\ loading (state closed) = false
  /\ resultPanel ModalLayout (state closed) = None
  /\ view ModalLayout (state closed) = AnalysisView
  /\ analysisPanel ModalLayout (state closed) = Spinner
  /\ rendered ModalLayout (state closed) = [TakeAnotherButton]
  /\ forall b,
       resultPanel ModalLayout
         (state (step ModalLayout apiKey closed (Press b))) = None.
Proof.
  intros Hkey Hview Huri. open_world w. cbv zeta.
  destruct apiKey as [[|k ks]|]; try discriminate.
  destruct photo as [[|c u] b64]; try discriminate.
  destruct ci as [[|c' u']|], sm; try discriminate;
    cbn; repeat split; intros b; destruct b; reflexivity.
Qed.

(** X16, from the screen as it starts. *)
Lemma result_panel_closed_witness :
  rendered ModalLayout
    (state (run ModalLayout someKey initial
              [Press CaptureButton; CameraSettled (Resolved (Some photo1));
               ModelSettled (Resolved scenarioA); Press ModalCloseButton]))
  = [TakeAnotherButton].
Proof.
  apply (result_panel_closed someKey initial photo1 scenarioA
           eq_refl eq_refl eq_refl).
Defined.
